(** * One-loop SPT power spectra (Copter, [src/SPT.cpp]): embedding and checked properties

    The translation unit is stateless numerical code over [real], which the
    build defines as IEEE-754 double precision.  It is embedded over Rocq's
    primitive binary64 floats, so every arithmetic step below rounds exactly
    as the compiled code does, and concrete calls can be evaluated.

    What the file does not contain is taken as follows:
    - [exp] and [log] (libm), the quadrature engine [Integrate] and the
      [Cosmology] type are the fields of a class, [Collaborators];
    - the [warning] sink and the calls of the quadrature engine are recorded
      in a log that every driver and accessor returns beside its value. *)

From Stdlib Require Import ZArith List Bool Lia Floats.
Import ListNotations.

Set Warnings "-inexact-float".

Local Open Scope float_scope.

(** ** Numeric types *)

(** Modelled from the spec: the typedef [real] is declared in Common.h, which
    is not among the sources; the spec fixes it as IEEE-754 double precision,
    the type [ComputeP22Integral] spells out. *)
Definition real : Set := float.

(** [int]: 32-bit two's complement.  C++ leaves a signed product that
    overflows undefined; it is taken to wrap, as the hardware multiplies. *)
Definition wrap_int (z : Z) : Z := ((z + 2 ^ 31) mod 2 ^ 32 - 2 ^ 31)%Z.

Definition int_mul (a b : Z) : Z := wrap_int (a * b).

(** [fmax] of <math.h>: a NaN argument is treated as missing data.  (Of two
    zeros of opposite signs the first is returned; C allows either.) *)
Definition fmax (x y : real) : real :=
  if is_nan x then y
  else if is_nan y then x
  else if x <? y then y else x.

Definition fabs (x : real) : real := abs x.

(** [M_PI] of <math.h>, 3.14159265358979323846. *)
Definition M_PI : real := 0x1.921fb54442d18p+1.

(** Modelled from the spec: the integer powers [pow2], [pow3], [pow4] and
    [pow6] are declared in Common.h, which is not among the sources; the
    spec writes them r², r³, r⁴ and r⁶. *)
Definition pow2 (x : real) : real := x * x.
Definition pow3 (x : real) : real := x * x * x.
Definition pow4 (x : real) : real := pow2 (pow2 x).
Definition pow6 (x : real) : real := pow3 (pow2 x).

(** Limits of integration for second-order power spectrum *)
Definition QMIN : real := 1e-5.
Definition QMAX : real := 1e5.

(** ** Effects: the diagnostic sink and the quadrature calls *)

Inductive event : Set :=
| Warning (a b : Z)
    (* warning("SPT: invalid indices, a = %d, b = %d\n", a, b) *)
| Quadrature1 (a b epsrel epsabs : real)
    (* Integrate(f, a, b, epsrel, epsabs) *)
| Quadrature2 (a b : real * real) (epsrel epsabs : real).
    (* Integrate<2>(f, a, b, epsrel, epsabs) *)

(** A computation returns its value and the events it caused, oldest first. *)
Definition M (A : Type) : Type := (A * list event)%type.

Definition ret {A : Type} (x : A) : M A := (x, []).

Definition bind {A B : Type} (m : M A) (f : A -> M B) : M B :=
  let (x, l) := m in
  let (y, l') := f x in
  (y, l ++ l').

Definition emit (e : event) : M unit := (tt, [e]).

Definition value {A : Type} (m : M A) : A := fst m.
Definition trace {A : Type} (m : M A) : list event := snd m.

Notation "x <- m ;; k" := (bind m (fun x => k))
  (at level 61, m at next level, right associativity).
Notation "m ;;; k" := (bind m (fun _ => k))
  (at level 61, right associativity).

Definition is_warning (e : event) : bool :=
  match e with Warning _ _ => true | _ => false end.

Definition warnings (l : list event) : list event := filter is_warning l.

(** ** Kernels *)

(** F_2^{(s)}(\vec{q},\vec{k}-\vec{q}) *)
Definition F2 (k q r : real) : real :=
  let q := fmax q QMIN in
  let r := fmax r QMIN in
  let k2 := k * k in
  let q2 := q * q in
  let r2 := r * r in
  5 / 7 + (1 / 14) * pow2 (k2 - q2 - r2) / (q2 * r2)
        + (1 / 4) * (k2 - q2 - r2) * (1 / q2 + 1 / r2).

(** G_2^{(s)}(\vec{q},\vec{k}-\vec{q}) *)
Definition G2 (k q r : real) : real :=
  let q := fmax q QMIN in
  let r := fmax r QMIN in
  let k2 := k * k in
  let q2 := q * q in
  let r2 := r * r in
  3 / 7 + (1 / 7) * pow2 (k2 - q2 - r2) / (q2 * r2)
        + (1 / 4) * (k2 - q2 - r2) * (1 / q2 + 1 / r2).

(** [PowerSpectrum]: a callable, P_L(k). *)
Definition PowerSpectrum : Set := real -> real.

(** The collaborators this translation unit is linked against: libm, the
    adaptive quadrature engine of Quadrature.h (in one and in two dimensions;
    the integrand is the bound closure, the bounds are scalars or arrays of
    two) and the cosmology type. *)
Class Collaborators : Type := {
  exp : real -> real;
  log : real -> real;
  Integrate1 : (real -> real) -> real -> real -> real -> real -> real;
  Integrate2 :
    (real -> real -> real) -> real * real -> real * real -> real -> real -> real;
  Cosmology : Type
}.

Section Embedding.

Context {env : Collaborators}.

Definition call_Integrate1 (f : real -> real) (a b epsrel epsabs : real)
  : M real :=
  emit (Quadrature1 a b epsrel epsabs) ;;; ret (Integrate1 f a b epsrel epsabs).

Definition call_Integrate2 (f : real -> real -> real) (a b : real * real)
           (epsrel epsabs : real) : M real :=
  emit (Quadrature2 a b epsrel epsabs) ;;; ret (Integrate2 f a b epsrel epsabs).

(** *** P22 *)

Definition P22_dd_integrand (P_L : PowerSpectrum) (k logu v : real) : real :=
  let u := exp logu in
  let q := (k / 2) * (u - v) in
  let r := (k / 2) * (u + v) in
  u * q * r * P_L q * P_L r * pow2 (F2 k q r).

Definition P22_dt_integrand (P_L : PowerSpectrum) (k logu v : real) : real :=
  let u := exp logu in
  let q := (k / 2) * (u - v) in
  let r := (k / 2) * (u + v) in
  u * q * r * P_L q * P_L r * F2 k q r * G2 k q r.

Definition P22_tt_integrand (P_L : PowerSpectrum) (k logu v : real) : real :=
  let u := exp logu in
  let q := (k / 2) * (u - v) in
  let r := (k / 2) * (u + v) in
  u * q * r * P_L q * P_L r * pow2 (G2 k q r).

Definition ComputeP22Integral
           (f : PowerSpectrum -> real -> real -> real -> real)
           (P_L : PowerSpectrum) (k epsrel qmax : real) : M real :=
  if k <=? 0 then ret 0
  else
    let umin := 1 in
    let umax := 2 * qmax / k in
    let vmin := 0 in
    let vmax := 1 in
    let a := (log umin, vmin) in
    let b := (log umax, vmax) in
    let V := k / (2 * M_PI * M_PI) in
    I <- call_Integrate2 (f P_L k) a b epsrel (epsrel * P_L k / V) ;;
    ret (V * I).

(** *** P13 *)

Definition f13_dd (P_L : PowerSpectrum) (k logq : real) : real :=
  let q := exp logq in
  let r := q / k in
  let s :=
    if r <? 1e-2 then
      -168 + (928 / 5) * pow2 r - (4512 / 35) * pow4 r + (416 / 21) * pow6 r
    else if fabs (r - 1) <? 1e-10 then
      -88 + 8 * (r - 1)
    else if 100 <? r then
      -488 / 5 + (96 / 5) / pow2 r - (160 / 21) / pow4 r
               - (1376 / 1155) / pow6 r
    else
      12 / pow2 r - 158 + 100 * pow2 r - 42 * pow4 r
      + 3 / pow3 r * pow3 (r * r - 1) * (7 * r * r + 2)
        * log ((1 + r) / fabs (1 - r)) in
  q * P_L q * s.

Definition f13_dt (P_L : PowerSpectrum) (k logq : real) : real :=
  let q := exp logq in
  let r := q / k in
  let s :=
    if r <? 1e-2 then
      -168 + (416 / 5) * pow2 r - (2976 / 35) * pow4 r + (224 / 15) * pow6 r
    else if fabs (r - 1) <? 1e-10 then
      -152 - 56 * (r - 1)
    else if 100 <? r then
      -200 + (2208 / 35) / pow2 r - (1312 / 105) / pow4 r
           - (1888 / 1155) / pow6 r
    else
      24 / pow2 r - 202 + 56 * pow2 r - 30 * pow4 r
      + 3 / pow3 r * pow3 (r * r - 1) * (5 * r * r + 4)
        * log ((1 + r) / fabs (1 - r)) in
  q * P_L q * s.

Definition f13_tt (P_L : PowerSpectrum) (k logq : real) : real :=
  let q := exp logq in
  let r := q / k in
  let s :=
    if r <? 1e-2 then
      -56 - (32 / 5) * pow2 r - (96 / 7) * pow4 r + (352 / 105) * pow6 r
    else if fabs (r - 1) <? 1e-10 then
      -72 - 40 * (r - 1)
    else if 100 <? r then
      -504 / 5 + (1248 / 35) / pow2 r - (608 / 105) / pow4 r
               - (160 / 231) / pow6 r
    else
      12 / pow2 r - 82 + 4 * pow2 r - 6 * pow4 r
      + 3 / pow3 r * pow3 (r * r - 1) * (r * r + 2)
        * log ((1 + r) / fabs (1 - r)) in
  q * P_L q * s.

(** *** The evaluator *)

Record SPT : Type := mkSPT {
  C : Cosmology;
  P_L : PowerSpectrum;
  epsrel : real
}.

Definition P22_dd (self : SPT) (k : real) : M real :=
  ComputeP22Integral P22_dd_integrand (P_L self) k (epsrel self) QMAX.

Definition P22_dt (self : SPT) (k : real) : M real :=
  ComputeP22Integral P22_dt_integrand (P_L self) k (epsrel self) QMAX.

Definition P22_tt (self : SPT) (k : real) : M real :=
  ComputeP22Integral P22_tt_integrand (P_L self) k (epsrel self) QMAX.

(** P_{\delta\delta}^{(13)} *)
Definition P13_dd (self : SPT) (k : real) : M real :=
  let a := log QMIN in
  let b := log QMAX in
  let V := k * k / (252 * 4 * M_PI * M_PI) * P_L self k in
  I <- call_Integrate1 (f13_dd (P_L self) k) a b (epsrel self)
                       (epsrel self * P_L self k / V) ;;
  ret (V * I).

(** P_{\delta\theta}^{(13)} *)
Definition P13_dt (self : SPT) (k : real) : M real :=
  let a := log QMIN in
  let b := log QMAX in
  let V := k * k / (252 * 4 * M_PI * M_PI) * P_L self k in
  I <- call_Integrate1 (f13_dt (P_L self) k) a b (epsrel self)
                       (epsrel self * P_L self k / V) ;;
  ret (V * I).

(** P_{\theta\theta}^{(13)} *)
Definition P13_tt (self : SPT) (k : real) : M real :=
  let a := log QMIN in
  let b := log QMAX in
  let V := k * k / (84 * 4 * M_PI * M_PI) * P_L self k in
  I <- call_Integrate1 (f13_tt (P_L self) k) a b (epsrel self)
                       (epsrel self * P_L self k / V) ;;
  ret (V * I).

(** P_{ab}(k).  The operands of the sum are logged left to right; C++ does
    not fix the order in which they are evaluated. *)
Definition P (self : SPT) (k : real) (a b : Z) : M real :=
  match int_mul a b with
  | 1%Z =>
      p13 <- P13_dd self k ;; p22 <- P22_dd self k ;;
      ret (P_L self k + p13 + p22)
  | 2%Z =>
      p13 <- P13_dt self k ;; p22 <- P22_dt self k ;;
      ret (P_L self k + p13 + p22)
  | 4%Z =>
      p13 <- P13_tt self k ;; p22 <- P22_tt self k ;;
      ret (P_L self k + p13 + p22)
  | _ => emit (Warning a b) ;;; ret 0
  end.

(** P_{ab}^{(22)} *)
Definition P22 (self : SPT) (k : real) (a b : Z) : M real :=
  match int_mul a b with
  | 1%Z => P22_dd self k
  | 2%Z => P22_dt self k
  | 4%Z => P22_tt self k
  | _ => emit (Warning a b) ;;; ret 0
  end.

(** P_{ab}^{(13)} *)
Definition P13 (self : SPT) (k : real) (a b : Z) : M real :=
  match int_mul a b with
  | 1%Z => P13_dd self k   (* 1,1 *)
  | 2%Z => P13_dt self k   (* 1,2 or 2,1 *)
  | 4%Z => P13_tt self k   (* 2,2 *)
  | _ => emit (Warning a b) ;;; ret 0
  end.

Definition G (self : SPT) (k : real) : M real :=
  p13 <- P13_dd self k ;;
  ret (1 + 0.5 * p13 / P_L self k).

End Embedding.

(** ** The statements of the specification, as definitions *)

(** The kernels as the specification writes them, on clamped momenta:
    c0 + c1·(k²−q²−r²)²/(q²r²) + (1/4)·(k²−q²−r²)·(1/q²+1/r²). *)
Definition kernel2 (c0 c1 k q r : real) : real :=
  c0 + c1 * pow2 (k * k - q * q - r * r) / (q * q * (r * r))
     + (1 / 4) * (k * k - q * q - r * r) * (1 / (q * q) + 1 / (r * r)).

(** What a kernel divides by. *)
Definition divisors (q r : real) : list real :=
  [q * q * (r * r); q * q; r * r].

Section BracketS.

Context {env : Collaborators}.

(** The four shapes of the bracket s(r) of a P13 integrand. *)
Definition poly_r2 (c0 c1 c2 c3 r : real) : real :=
  c0 + c1 * pow2 r + c2 * pow4 r + c3 * pow6 r.

Definition linear_at_1 (c0 c1 r : real) : real :=
  c0 + c1 * (r - 1).

Definition inverse_powers (c0 c1 c2 c3 r : real) : real :=
  c0 + c1 / pow2 r + c2 / pow4 r + c3 / pow6 r.

(** E·r² is computed as (E·r)·r, the way the source writes 7*r*r. *)
Definition closed_form (A B C D E F r : real) : real :=
  A / pow2 r - B + C * pow2 r - D * pow4 r
  + 3 / pow3 r * pow3 (r * r - 1) * (E * r * r + F)
    * log ((1 + r) / fabs (1 - r)).

(** The shape is chosen by thresholds on r alone. *)
Definition select_by_r (small near large otherwise : real -> real)
           (r : real) : real :=
  if r <? 1e-2 then small r
  else if fabs (r - 1) <? 1e-10 then near r
  else if 100 <? r then large r
  else otherwise r.

Definition s_dd : real -> real :=
  select_by_r
    (poly_r2 (-168) (928 / 5) (- (4512 / 35)) (416 / 21))
    (linear_at_1 (-88) 8)
    (inverse_powers (-488 / 5) (96 / 5) (- (160 / 21)) (- (1376 / 1155)))
    (closed_form 12 158 100 42 7 2).

Definition s_dt : real -> real :=
  select_by_r
    (poly_r2 (-168) (416 / 5) (- (2976 / 35)) (224 / 15))
    (linear_at_1 (-152) (-56))
    (inverse_powers (-200) (2208 / 35) (- (1312 / 105)) (- (1888 / 1155)))
    (closed_form 24 202 56 30 5 4).

Definition s_tt : real -> real :=
  select_by_r
    (poly_r2 (-56) (- (32 / 5)) (- (96 / 7)) (352 / 105))
    (linear_at_1 (-72) (-40))
    (inverse_powers (-504 / 5) (1248 / 35) (- (608 / 105)) (- (160 / 231)))
    (closed_form 12 82 4 6 1 2).

End BracketS.

(** The error taxonomy of the specification.  The source has no throw, no
    error code and no abort: a call of an accessor can only return a [real]. *)
Inductive error_kind : Set :=
| InvalidFieldIndex
| InvalidArgument
| DomainError
| ConvergenceFailure.

Inductive outcome : Set :=
| Returned (v : real)
| Raised (e : error_kind).

Definition outcome_of (m : M real) : outcome := Returned (value m).

Definition not_finite (x : real) : bool := is_nan x || is_infinity x.

(** A double that is +Inf, or positive and finite with exponent at least [E]
    (in the representation mantissa·2^exponent of [Prim2SF]). *)
Definition above (E : Z) (x : spec_float) : Prop :=
  match x with
  | S754_infinity false => True
  | S754_finite false _ e => (E <= e)%Z
  | _ => False
  end.

(** ** Concrete collaborators, to run the code on inputs

    First-order stand-ins for [exp] and [log] and a one-point midpoint rule
    for the quadrature engine.  The theorems hold for every collaborator;
    these only serve to evaluate calls. *)
Definition midpoint1 (f : real -> real) (a b epsrel epsabs : real) : real :=
  (b - a) * f ((a + b) / 2).

Definition midpoint2 (f : real -> real -> real) (a b : real * real)
           (epsrel epsabs : real) : real :=
  (fst b - fst a) * (snd b - snd a)
  * f ((fst a + fst b) / 2) ((snd a + snd b) / 2).

Definition demo_env : Collaborators := {|
  exp := fun x => 1 + x;
  log := fun x => x - 1;
  Integrate1 := midpoint1;
  Integrate2 := midpoint2;
  Cosmology := unit
|}.

(** An evaluator on the power law P_L(k) = 1/k, and one on P_L = 0. *)
Definition demo : @SPT demo_env := @mkSPT demo_env tt (fun k => 1 / k) 1e-3.

Definition demo_zero : @SPT demo_env := @mkSPT demo_env tt (fun _ => 0) 1e-3.

(** ** Vocabulary of the further properties *)

(** The clamp of the kernels, written with a comparison. *)
Definition clamp (x : real) : real := if QMIN <=? x then x else QMIN.

(** A double that is a zero of either sign, or NaN. *)
Definition zero_or_nan (x : spec_float) : bool :=
  match x with S754_zero _ | S754_nan => true | _ => false end.

(** The index pairs of product 1, 2 or 4; the four field pairs are among
    them. *)
Definition silent_pairs : list (Z * Z) :=
  [(1, 1); (-1, -1);
   (1, 2); (2, 1); (-1, -2); (-2, -1);
   (2, 2); (-2, -2); (1, 4); (4, 1); (-1, -4); (-4, -1)]%Z.

(** ** Facts of binary64 arithmetic

    Proved from the specification of the primitive operations
    ([Prim2SF], [SFadd], [SFmul], ...). *)

Lemma SFmul_comm (x y : spec_float) : SF64mul x y = SF64mul y x.
Proof.
  destruct x as [sx|sx| |sx mx ex], y as [sy|sy| |sy my ey]; cbn;
    rewrite ?(xorb_comm sx sy), ?(Pos.mul_comm mx my), ?(Z.add_comm ex ey);
    reflexivity.
Qed.

Lemma SFadd_comm (x y : spec_float) : SF64add x y = SF64add y x.
Proof.
  destruct x as [sx|sx| |sx mx ex], y as [sy|sy| |sy my ey];
    cbn -[binary_normalize shl_align];
    try reflexivity; try (destruct sx, sy; reflexivity).
  rewrite (Z.min_comm ey ex), Z.add_comm. reflexivity.
Qed.

Lemma float_mul_comm (x y : real) : x * y = y * x.
Proof. apply Prim2SF_inj. rewrite !mul_spec. apply SFmul_comm. Qed.

Lemma float_add_comm (x y : real) : x + y = y + x.
Proof. apply Prim2SF_inj. rewrite !add_spec. apply SFadd_comm. Qed.

Lemma SFsub_add_opp (x y : spec_float) : SF64sub x y = SF64add x (SFopp y).
Proof.
  destruct x as [sx|sx| |sx mx ex], y as [sy|sy| |sy my ey];
    cbn -[binary_normalize shl_align];
    try reflexivity; destruct sx, sy; reflexivity.
Qed.

Lemma float_sub_add_opp (x y : real) : x - y = x + (- y).
Proof.
  apply Prim2SF_inj. rewrite sub_spec, add_spec, opp_spec.
  apply SFsub_add_opp.
Qed.

(** Rounding does not look at the sign. *)
Lemma binary_round_aux_opp (s : bool) (m e : Z) (l : location) :
  binary_round_aux prec emax (negb s) m e l
  = SFopp (binary_round_aux prec emax s m e l).
Proof.
  unfold binary_round_aux.
  destruct (shr_fexp prec emax m e l) as [mrs e'].
  destruct (shr_fexp prec emax _ e' loc_Exact) as [mrs' e''].
  destruct (shr_m mrs'); try reflexivity.
  destruct (Z.leb e'' _); reflexivity.
Qed.

Lemma SFmul_opp_l (x y : spec_float) :
  SF64mul (SFopp x) y = SFopp (SF64mul x y).
Proof.
  destruct x as [sx|sx| |sx mx ex], y as [sy|sy| |sy my ey];
    cbn -[binary_round_aux];
    rewrite <- ?negb_xorb_l; try reflexivity.
  apply binary_round_aux_opp.
Qed.

Lemma SFdiv_opp_l (x y : spec_float) :
  SF64div (SFopp x) y = SFopp (SF64div x y).
Proof.
  destruct x as [sx|sx| |sx mx ex], y as [sy|sy| |sy my ey];
    cbn -[binary_round_aux SFdiv_core_binary];
    rewrite <- ?negb_xorb_l; try reflexivity.
  destruct (SFdiv_core_binary _ _ _ _ _ _) as [[mz ez] lz].
  apply binary_round_aux_opp.
Qed.

Lemma float_mul_opp_l (x y : real) : (- x) * y = - (x * y).
Proof.
  apply Prim2SF_inj. rewrite opp_spec, !mul_spec, opp_spec.
  apply SFmul_opp_l.
Qed.

Lemma float_div_opp_l (x y : real) : (- x) / y = - (x / y).
Proof.
  apply Prim2SF_inj. rewrite opp_spec, !div_spec, opp_spec.
  apply SFdiv_opp_l.
Qed.

(** Subtracting a term is adding the term of the opposite coefficient. *)
Lemma float_sub_mul_opp (a c y : real) : a - c * y = a + (- c) * y.
Proof. rewrite float_sub_add_opp, float_mul_opp_l. reflexivity. Qed.

Lemma float_sub_div_opp (a c y : real) : a - c / y = a + (- c) / y.
Proof. rewrite float_sub_add_opp, float_div_opp_l. reflexivity. Qed.

(** Multiplying by one is exact. *)
Lemma float_mul_1_l (x : real) : 1 * x = x.
Proof.
  apply Prim2SF_inj. rewrite mul_spec.
  pose proof (Prim2SF_valid x) as Hv.
  destruct (Prim2SF x) as [s|s| |s m e]; try reflexivity.
  cbn in Hv. unfold bounded, canonical_mantissa in Hv.
  apply andb_prop in Hv. destruct Hv as [Hc Hb].
  apply Z.eqb_eq in Hc.
  change (Prim2SF 1) with (S754_finite false 4503599627370496 (-52)).
  unfold SF64mul, SFmul. rewrite xorb_false_l.
  set (M := Pos.mul 4503599627370496 m).
  assert (HM : M = Pos.iter xO m 52) by reflexivity.
  assert (Hd : (Z.pos (digits2_pos M) = Z.pos (digits2_pos m) + 52)%Z).
  { rewrite HM. cbn [Pos.iter digits2_pos]. lia. }
  unfold binary_round_aux, shr_fexp.
  cbn [Zdigits2].
  replace (Z.pos (digits2_pos M) + (-52 + e))%Z
    with (Z.pos (digits2_pos m) + e)%Z by lia.
  rewrite Hc.
  replace (e - (-52 + e))%Z with 52%Z by lia.
  unfold shr. rewrite HM.
  cbv [Pos.iter iter_pos shr_1 shr_record_of_loc orb].
  cbn [loc_of_shr_record shr_m round_nearest_even Zdigits2].
  replace (-52 + e + 52)%Z with e by lia.
  rewrite Hc, Z.sub_diag.
  cbn [shr_record_of_loc shr_m]. rewrite Hb. reflexivity.
Qed.

(** *** Products of doubles bounded away from zero do not underflow to zero *)

Lemma digits2_pos_lower (m : positive) :
  (2 ^ (Z.pos (digits2_pos m) - 1) <= Z.pos m)%Z.
Proof.
  induction m as [m IH|m IH|]; cbn [digits2_pos].
  - rewrite Pos2Z.inj_succ.
    replace (Z.succ (Z.pos (digits2_pos m)) - 1)%Z
      with (Z.succ (Z.pos (digits2_pos m) - 1))%Z by lia.
    rewrite Z.pow_succ_r by lia. lia.
  - rewrite Pos2Z.inj_succ.
    replace (Z.succ (Z.pos (digits2_pos m)) - 1)%Z
      with (Z.succ (Z.pos (digits2_pos m) - 1))%Z by lia.
    rewrite Z.pow_succ_r by lia. lia.
  - reflexivity.
Qed.

Lemma shr_1_m (mrs : shr_record) :
  (0 <= shr_m mrs)%Z -> shr_m (shr_1 mrs) = (shr_m mrs / 2)%Z.
Proof.
  destruct mrs as [m r s]. cbn [shr_m]. intros Hm.
  destruct m as [|[p|p|]|p]; cbn [shr_1 shr_m]; try reflexivity.
  - rewrite Pos2Z.inj_xI. apply Z.div_unique with 1%Z; lia.
  - rewrite Pos2Z.inj_xO. apply Z.div_unique with 0%Z; lia.
  - lia.
Qed.

Lemma iter_shr_1_m (p : positive) : forall mrs : shr_record,
  (0 <= shr_m mrs)%Z ->
  shr_m (iter_pos shr_1 p mrs) = (shr_m mrs / 2 ^ Z.pos p)%Z.
Proof.
  assert (Hnn : forall a b, (0 <= a -> 0 < b -> 0 <= a / b)%Z)
    by (intros; apply Z.div_pos; lia).
  assert (Hpw : forall q, (0 < 2 ^ Z.pos q)%Z)
    by (intros; apply Z.pow_pos_nonneg; lia).
  induction p as [p IH|p IH|]; intros mrs Hm; cbn [iter_pos].
  - assert (H1 : (0 <= shr_m (shr_1 mrs))%Z)
      by (rewrite shr_1_m by assumption; apply Hnn; lia).
    assert (H2 : (0 <= shr_m (iter_pos shr_1 p (shr_1 mrs)))%Z)
      by (rewrite IH by assumption; apply Hnn; auto).
    rewrite IH, IH, shr_1_m by assumption.
    rewrite !Z.div_div by (pose proof (Hpw p); lia).
    f_equal.
    replace (Z.pos p~1) with (1 + Z.pos p + Z.pos p)%Z by lia.
    rewrite !Z.pow_add_r by lia. change (2 ^ 1)%Z with 2%Z. lia.
  - assert (H2 : (0 <= shr_m (iter_pos shr_1 p mrs))%Z)
      by (rewrite IH by assumption; apply Hnn; auto).
    rewrite IH, IH by assumption.
    rewrite Z.div_div by (pose proof (Hpw p); lia).
    f_equal.
    replace (Z.pos p~0) with (Z.pos p + Z.pos p)%Z by lia.
    rewrite Z.pow_add_r by lia. reflexivity.
  - rewrite shr_1_m by assumption. reflexivity.
Qed.

Lemma round_nearest_even_ge (m : Z) (l : location) :
  (m <= round_nearest_even m l)%Z.
Proof.
  destruct l as [|[ | | ]]; cbn [round_nearest_even]; try lia.
  destruct (Z.even m); lia.
Qed.

(** Above the subnormal range the shift keeps 53 bits of a mantissa. *)
Lemma shr_fexp_pos (m e : Z) (l : location) :
  (0 < m)%Z -> (-1074 <= e)%Z ->
  (0 < shr_m (fst (shr_fexp prec emax m e l)))%Z /\
  (e <= snd (shr_fexp prec emax m e l))%Z.
Proof.
  intros Hm He.
  destruct m as [|m|m]; try lia.
  unfold shr_fexp, shr. cbn [Zdigits2].
  assert (Hsm : forall l, shr_m (shr_record_of_loc (Z.pos m) l) = Z.pos m)
    by (intros [|[ | | ]]; reflexivity).
  destruct (fexp prec emax (Z.pos (digits2_pos m) + e) - e)%Z as [|p|p] eqn:Hn;
    cbn [fst snd]; rewrite ?Hsm; try lia.
  split; [|lia].
  rewrite iter_shr_1_m by (rewrite Hsm; lia).
  rewrite Hsm.
  assert (Hp : (Z.pos p = Z.pos (digits2_pos m) - 53)%Z).
  { unfold fexp, SpecFloat.emin, prec, emax in Hn. lia. }
  pose proof (digits2_pos_lower m) as Hd.
  apply Z.div_str_pos. split; [apply Z.pow_pos_nonneg; lia|].
  eapply Z.le_trans; [|exact Hd].
  apply Z.pow_le_mono_r; lia.
Qed.

Lemma binary_round_aux_above (m : positive) (e : Z) (l : location) :
  (-1074 <= e)%Z ->
  above e (binary_round_aux prec emax false (Z.pos m) e l).
Proof.
  intros He. unfold binary_round_aux.
  pose proof (shr_fexp_pos (Z.pos m) e l eq_refl He) as [H1 H2].
  destruct (shr_fexp prec emax (Z.pos m) e l) as [mrs' e'].
  cbn [fst snd] in H1, H2.
  pose proof (round_nearest_even_ge (shr_m mrs') (loc_of_shr_record mrs')) as Hr.
  set (m1 := round_nearest_even (shr_m mrs') (loc_of_shr_record mrs')) in *.
  assert (H3 : (0 < m1)%Z) by lia.
  assert (H4 : (-1074 <= e')%Z) by lia.
  pose proof (shr_fexp_pos m1 e' loc_Exact H3 H4) as [H5 H6].
  destruct (shr_fexp prec emax m1 e' loc_Exact) as [mrs'' e''].
  cbn [fst snd] in H5, H6.
  destruct (shr_m mrs'') as [|m2|m2]; try lia.
  destruct (e'' <=? emax - prec)%Z; cbn [above]; [lia | exact I].
Qed.

Lemma SFmul_above (E1 E2 : Z) (x y : spec_float) :
  (-1074 <= E1 + E2)%Z -> above E1 x -> above E2 y ->
  above (E1 + E2) (SF64mul x y).
Proof.
  intros HE Hx Hy.
  destruct x as [sx|[|]| |[|] mx ex]; cbn [above] in Hx; try contradiction;
  destruct y as [sy|[|]| |[|] my ey]; cbn [above] in Hy; try contradiction;
    try exact I.
  unfold SF64mul, SFmul. cbn [xorb].
  pose proof (binary_round_aux_above (mx * my) (ex + ey) loc_Exact) as H.
  specialize (H ltac:(lia)).
  destruct (binary_round_aux prec emax false (Z.pos (mx * my)) (ex + ey) loc_Exact)
    as [s|[|]| |[|] m e]; cbn [above] in H |- *; try contradiction; try exact I.
  lia.
Qed.

Lemma float_mul_above (E1 E2 : Z) (x y : real) :
  (-1074 <= E1 + E2)%Z -> above E1 (Prim2SF x) -> above E2 (Prim2SF y) ->
  above (E1 + E2) (Prim2SF (x * y)).
Proof. intros. rewrite mul_spec. now apply SFmul_above. Qed.

Lemma Prim2SF_QMIN : Prim2SF QMIN = S754_finite false 5902958103587057 (-69).
Proof. reflexivity. Qed.

(** The clamp: whatever q is (NaN included), max(q, QMIN) is at least QMIN. *)
Lemma fmax_QMIN_above (q : real) : above (-69) (Prim2SF (fmax q QMIN)).
Proof.
  assert (H0 : above (-69) (Prim2SF QMIN))
    by (rewrite Prim2SF_QMIN; cbn [above]; lia).
  unfold fmax.
  destruct (is_nan q) eqn:Hnan; [exact H0|].
  change (is_nan QMIN) with false. cbv iota.
  destruct (q <? QMIN) eqn:Hlt; [exact H0|].
  unfold is_nan in Hnan. rewrite eqb_spec in Hnan.
  rewrite ltb_spec, Prim2SF_QMIN in Hlt.
  destruct (Prim2SF q) as [s|[|]| |[|] m e]; try discriminate; try exact I.
  cbn [above]. unfold SFltb, SFcompare in Hlt.
  destruct (Z.compare_spec e (-69)); try discriminate; lia.
Qed.

Lemma above_nonzero (E : Z) (x : real) :
  above E (Prim2SF x) -> (x =? 0) = false.
Proof.
  rewrite eqb_spec. change (Prim2SF 0) with (S754_zero false).
  destruct (Prim2SF x) as [s|[|]| |[|] m e]; cbn [above];
    try contradiction; reflexivity.
Qed.

(** A quotient by zero is NaN or infinite, and stays so when added to one. *)
Lemma one_plus_div_zero (x z : real) :
  (z =? 0) = true -> not_finite (1 + x / z) = true.
Proof.
  intros Hz. rewrite eqb_spec in Hz. change (Prim2SF 0) with (S754_zero false) in Hz.
  unfold not_finite, is_nan, is_infinity.
  rewrite !eqb_spec, abs_spec, add_spec, div_spec.
  change (Prim2SF 1) with (S754_finite false 4503599627370496 (-52)).
  change (Prim2SF infinity) with (S754_infinity false).
  destruct (Prim2SF z) as [sz|[|]| |[|] mz ez]; try discriminate.
  destruct (Prim2SF x) as [sx|sx| |sx mx ex]; cbn; try reflexivity;
    destruct (xorb sx sz); reflexivity.
Qed.

(** ** The log of a computation *)

Lemma value_bind2 (m n : M real) (f : real -> real -> real) :
  value (x <- m ;; y <- n ;; ret (f x y)) = f (value m) (value n).
Proof. destruct m as [x l], n as [y l']. reflexivity. Qed.

Lemma trace_bind2 (m n : M real) (f : real -> real -> real) :
  trace (x <- m ;; y <- n ;; ret (f x y)) = trace m ++ trace n.
Proof.
  destruct m as [x l], n as [y l']. cbn. now rewrite app_nil_r.
Qed.

Lemma value_bind1 (m : M real) (f : real -> real) :
  value (x <- m ;; ret (f x)) = f (value m).
Proof. destruct m as [x l]. reflexivity. Qed.

Lemma trace_bind1 (m : M real) (f : real -> real) :
  trace (x <- m ;; ret (f x)) = trace m.
Proof. destruct m as [x l]. cbn. now rewrite app_nil_r. Qed.

(** ** Dispatch on the product of the field indices *)

Lemma int_mul_comm (a b : Z) : int_mul a b = int_mul b a.
Proof. unfold int_mul. now rewrite Z.mul_comm. Qed.

(** A key other than 1, 2 and 4 selects the default of the switch. *)
Lemma switch_default {A : Type} (key : Z) (x y z w : A) :
  ~ In key [1; 2; 4]%Z ->
  match key with 1%Z => x | 2%Z => y | 4%Z => z | _ => w end = w.
Proof.
  intros H.
  destruct key as [|p|p]; try reflexivity.
  destruct p as [p|[p|[p|p|]|]|]; try reflexivity;
    exfalso; apply H; cbn; tauto.
Qed.

(** Evaluates the key of a switch on concrete indices. *)
Ltac switch_key :=
  repeat match goal with
         | |- context [int_mul ?a ?b] =>
             let v := eval vm_compute in (int_mul a b) in
             change (int_mul a b) with v
         end;
  cbv iota.

Ltac field_pairs Ha Hb :=
  cbn [In] in Ha, Hb;
  destruct Ha as [<-|[<-|[]]]; destruct Hb as [<-|[<-|[]]].

Section Dispatch.

Context {env : Collaborators}.
Variable self : SPT.

(** C1. For every k > 0 and every field pair (a,b) with a, b in {1,2},
    P(k,a,b) is the sum P_L(k) + P13(k,a,b) + P22(k,a,b) of the tree level
    and of the two loop terms as the public accessors return them on the
    same pair. *)
Theorem P_is_tree_plus_loops (k : real) (a b : Z) :
  (0 <? k) = true -> In a [1; 2]%Z -> In b [1; 2]%Z ->
  value (P self k a b)
  = P_L self k + value (P13 self k a b) + value (P22 self k a b).
Proof.
  intros _ Ha Hb. field_pairs Ha Hb; unfold P, P13, P22; switch_key;
    exact (value_bind2 _ _ (fun x y => P_L self k + x + y)).
Qed.

(** C4, as the code has it: for every k and every pair (a,b) whose int
    product a·b is none of 1, 2 and 4, each of P, P22 and P13 emits the
    warning, and nothing else, and returns 0, which is not a NaN. *)
Theorem invalid_product_warns (k : real) (a b : Z) :
  ~ In (int_mul a b) [1; 2; 4]%Z ->
  P self k a b = (0, [Warning a b]) /\
  P22 self k a b = (0, [Warning a b]) /\
  P13 self k a b = (0, [Warning a b]) /\
  is_nan 0 = false.
Proof.
  intros H. unfold P, P22, P13.
  repeat split; try exact (switch_default _ _ _ _ _ H).
Qed.

(** C7. For every k <= 0 and every field pair in {1,2}x{1,2}, P22(k,a,b)
    is 0 and its log is empty: the driver returns before it builds the
    integrand or calls the quadrature engine.  The driver does so for any
    integrand, spectrum, tolerance and cutoff. *)
Theorem P22_nonpositive_k (k : real) (a b : Z) :
  (k <=? 0) = true -> In a [1; 2]%Z -> In b [1; 2]%Z ->
  P22 self k a b = (0, []) /\
  forall f PL eps qmax, ComputeP22Integral f PL k eps qmax = (0, []).
Proof.
  intros Hk Ha Hb. split.
  - field_pairs Ha Hb; unfold P22; switch_key;
      unfold P22_dd, P22_dt, P22_tt, ComputeP22Integral; now rewrite Hk.
  - intros. unfold ComputeP22Integral. now rewrite Hk.
Qed.

(** Two pairs of the same product give the same value. *)
Lemma same_product_same_value (k : real) (a b a' b' : Z) :
  int_mul a b = int_mul a' b' ->
  value (P self k a b) = value (P self k a' b') /\
  value (P22 self k a b) = value (P22 self k a' b') /\
  value (P13 self k a b) = value (P13 self k a' b').
Proof.
  intros H. unfold P, P22, P13. rewrite H.
  repeat split;
    destruct (int_mul a' b') as [|p|p]; try reflexivity;
    destruct p as [p|[p|[p|p|]|]|]; reflexivity.
Qed.

(** C8. Dispatch is symmetric in the field indices: P(k,1,2) = P(k,2,1),
    P22(k,1,2) = P22(k,2,1) and P13(k,1,2) = P13(k,2,1) for every k, value
    and log alike, the key a·b being commutative; for the same reason the
    value returned on (a,b) is the value returned on (b,a), whatever a and b
    are. *)
Theorem dispatch_symmetric (k : real) :
  P self k 1 2 = P self k 2 1 /\
  P22 self k 1 2 = P22 self k 2 1 /\
  P13 self k 1 2 = P13 self k 2 1 /\
  (forall a b, int_mul a b = int_mul b a) /\
  (forall a b,
      value (P self k a b) = value (P self k b a) /\
      value (P22 self k a b) = value (P22 self k b a) /\
      value (P13 self k a b) = value (P13 self k b a)).
Proof.
  split; [reflexivity|]. split; [reflexivity|]. split; [reflexivity|].
  split; [exact int_mul_comm|].
  intros a b. apply same_product_same_value, int_mul_comm.
Qed.

Lemma P13_tt_no_warning (k : real) : warnings (trace (P13_tt self k)) = [].
Proof. reflexivity. Qed.

Lemma P22_tt_no_warning (k : real) : warnings (trace (P22_tt self k)) = [].
Proof.
  unfold P22_tt, ComputeP22Integral. destruct (k <=? 0); reflexivity.
Qed.

(** C10. The accessors see the field indices only through the product
    a·b: two pairs of the same product give the same value.  The pair (4,1)
    has a component outside {1,2} and the product 4: on it P, P22 and P13
    are the velocity-velocity results, P(k,4,1) = P(k,2,2) for every k, and
    no diagnostic is emitted. *)
Theorem product_keyed_dispatch (k : real) :
  (forall a b a' b',
      int_mul a b = int_mul a' b' ->
      value (P self k a b) = value (P self k a' b') /\
      value (P22 self k a b) = value (P22 self k a' b') /\
      value (P13 self k a b) = value (P13 self k a' b')) /\
  int_mul 4 1 = int_mul 2 2 /\
  P self k 4 1 = P self k 2 2 /\
  P22 self k 4 1 = P22 self k 2 2 /\
  P13 self k 4 1 = P13 self k 2 2 /\
  P22 self k 4 1 = P22_tt self k /\
  P13 self k 4 1 = P13_tt self k /\
  warnings (trace (P self k 4 1)) = [] /\
  warnings (trace (P22 self k 4 1)) = [] /\
  warnings (trace (P13 self k 4 1)) = [].
Proof.
  split; [intros a b a' b'; apply same_product_same_value|].
  repeat split.
  - unfold P. switch_key. rewrite trace_bind2. unfold warnings.
    rewrite filter_app.
    fold (warnings (trace (P13_tt self k))).
    fold (warnings (trace (P22_tt self k))).
    now rewrite P13_tt_no_warning, P22_tt_no_warning.
  - apply P22_tt_no_warning.
Qed.

(** C5, as the code has it: no P13 driver looks at k.  For every k, zero
    and negative included, each driver calls the quadrature engine once
    over [log QMIN, log QMAX] and returns V times its result, with
    V = k²/(252·4π²)·P_L(k) for dd and dt and V = k²/(84·4π²)·P_L(k) for
    tt; there is no typed error. *)
Theorem P13_drivers_unguarded (k : real) :
  let PL := P_L self in
  let eps := epsrel self in
  let a := log QMIN in
  let b := log QMAX in
  let V := k * k / (252 * 4 * M_PI * M_PI) * PL k in
  let V' := k * k / (84 * 4 * M_PI * M_PI) * PL k in
  P13_dd self k
  = (V * Integrate1 (f13_dd PL k) a b eps (eps * PL k / V),
     [Quadrature1 a b eps (eps * PL k / V)]) /\
  P13_dt self k
  = (V * Integrate1 (f13_dt PL k) a b eps (eps * PL k / V),
     [Quadrature1 a b eps (eps * PL k / V)]) /\
  P13_tt self k
  = (V' * Integrate1 (f13_tt PL k) a b eps (eps * PL k / V'),
     [Quadrature1 a b eps (eps * PL k / V')]) /\
  (forall e, outcome_of (P13_dd self k) <> Raised e) /\
  (forall e, outcome_of (P13_dt self k) <> Raised e) /\
  (forall e, outcome_of (P13_tt self k) <> Raised e).
Proof.
  repeat split; discriminate.
Qed.

(** C6, as the code has it: G(k) returns 1 + 0.5·P13_dd(k)/P_L(k) for
    every k and causes the events of P13_dd(k) only.  The division is not
    guarded: where P_L(k) is zero the quotient is taken all the same, and
    the value returned is a NaN or an infinity. *)
Theorem G_unguarded (k : real) :
  value (G self k) = 1 + 0.5 * value (P13_dd self k) / P_L self k /\
  trace (G self k) = trace (P13_dd self k) /\
  ((P_L self k =? 0) = true -> not_finite (value (G self k)) = true) /\
  (forall e, outcome_of (G self k) <> Raised e).
Proof.
  assert (Hv : value (G self k)
               = 1 + 0.5 * value (P13_dd self k) / P_L self k)
    by exact (value_bind1 _ (fun p13 => 1 + 0.5 * p13 / P_L self k)).
  split; [exact Hv|].
  split; [exact (trace_bind1 _ (fun p13 => 1 + 0.5 * p13 / P_L self k))|].
  split; [|discriminate].
  intros Hz. rewrite Hv. now apply one_plus_div_zero.
Qed.

End Dispatch.

(** ** The kernels *)

(** C3. For every k, q and r, F2(k,q,r) = 5/7 + (1/14)·(k²−q'²−r'²)²/(q'²r'²)
    + (1/4)·(k²−q'²−r'²)·(1/q'²+1/r'²) and G2 is the same with the constants
    3/7 and 1/7, where q' = max(q, QMIN) and r' = max(r, QMIN); and none of
    the divisors q'²r'², q'² and r'² is zero, whatever doubles k, q and r are
    (NaN and the infinities included): the clamp leaves no division by
    zero. *)
Theorem F2_G2_formula_total (k q r : real) :
  let q' := fmax q QMIN in
  let r' := fmax r QMIN in
  F2 k q r = kernel2 (5 / 7) (1 / 14) k q' r' /\
  G2 k q r = kernel2 (3 / 7) (1 / 7) k q' r' /\
  Forall (fun d => (d =? 0) = false) (divisors q' r').
Proof.
  intros q' r'. split; [reflexivity|]. split; [reflexivity|].
  assert (Hq : above (-69 + -69) (Prim2SF (q' * q')))
    by (apply float_mul_above; try apply fmax_QMIN_above; lia).
  assert (Hr : above (-69 + -69) (Prim2SF (r' * r')))
    by (apply float_mul_above; try apply fmax_QMIN_above; lia).
  unfold divisors. repeat constructor.
  - apply (above_nonzero (-69 + -69 + (-69 + -69))).
    apply float_mul_above; try assumption; lia.
  - exact (above_nonzero _ _ Hq).
  - exact (above_nonzero _ _ Hr).
Qed.

(** C9, as the code has it: F2(k,q,r) = F2(k,r,q) and G2(k,q,r) = G2(k,r,q)
    for every k, q and r on which the two orders of the double-precision
    subtraction in k²−q'²−r'² agree, (k²−q'²)−r'² = (k²−r'²)−q'², as they do
    in exact arithmetic (q' and r' are the clamped momenta). *)
Theorem F2_G2_swap (k q r : real) :
  let k2 := k * k in
  let q2 := fmax q QMIN * fmax q QMIN in
  let r2 := fmax r QMIN * fmax r QMIN in
  k2 - q2 - r2 = k2 - r2 - q2 ->
  F2 k q r = F2 k r q /\ G2 k q r = G2 k r q.
Proof.
  intros k2 q2 r2 H. unfold F2, G2. cbv zeta.
  fold k2 q2 r2. rewrite H.
  rewrite (float_mul_comm q2 r2), (float_add_comm (1 / q2) (1 / r2)).
  split; reflexivity.
Qed.

(** ** The P13 integrands *)

Section Integrands.

Context {env : Collaborators}.

Ltac bracket :=
  unfold select_by_r, poly_r2, linear_at_1, inverse_powers, closed_form;
  repeat match goal with
         | |- context [if ?c then _ else _] => destruct c
         end;
  rewrite ?float_sub_mul_opp, ?float_sub_div_opp, ?float_mul_1_l;
  reflexivity.

(** C2. Each P13 integrand (dd, dt, tt) returns q·P_L(q)·s(r) with q =
    exp(logq) and r = q/k, where s is chosen by thresholds on r alone: for
    r < 1e-2 a polynomial of four terms in r², for |r−1| < 1e-10 a linear
    expansion in (r−1), for r > 100 an expansion in inverse powers of r
    down to r⁻⁶, and otherwise the closed form A/r² − B + C·r² − D·r⁴ +
    (3/r³)(r²−1)³(E·r²+F)·ln((1+r)/|1−r|); the coefficients are those of
    the variant, for dd A=12, B=158, C=100, D=42, E=7, F=2. *)
Theorem f13_piecewise (PL : PowerSpectrum) (k logq : real) :
  let q := exp logq in
  let r := q / k in
  f13_dd PL k logq = q * PL q * s_dd r /\
  f13_dt PL k logq = q * PL q * s_dt r /\
  f13_tt PL k logq = q * PL q * s_tt r /\
  s_dd r
  = select_by_r
      (poly_r2 (-168) (928 / 5) (- (4512 / 35)) (416 / 21))
      (linear_at_1 (-88) 8)
      (inverse_powers (-488 / 5) (96 / 5) (- (160 / 21)) (- (1376 / 1155)))
      (closed_form 12 158 100 42 7 2) r.
Proof.
  intros q r. repeat apply conj.
  - unfold f13_dd, s_dd. cbv zeta. fold q. fold r. f_equal. bracket.
  - unfold f13_dt, s_dt. cbv zeta. fold q. fold r. f_equal. bracket.
  - unfold f13_tt, s_tt. cbv zeta. fold q. fold r. f_equal. bracket.
  - reflexivity.
Qed.

End Integrands.

(** ** The theorems at concrete inputs *)

Lemma P_is_tree_plus_loops_witness :
  (0 <? 1) = true /\ In 1%Z [1; 2]%Z /\ In 2%Z [1; 2]%Z /\
  value (P demo 1 1 2)
  = P_L demo 1 + value (P13 demo 1 1 2) + value (P22 demo 1 1 2).
Proof.
  assert (H1 : In 1%Z [1; 2]%Z) by (left; reflexivity).
  assert (H2 : In 2%Z [1; 2]%Z) by (right; left; reflexivity).
  split; [reflexivity|]. split; [exact H1|]. split; [exact H2|].
  exact (P_is_tree_plus_loops demo 1 1 2 eq_refl H1 H2).
Defined.

Lemma invalid_product_warns_witness :
  ~ In (int_mul 3 1) [1; 2; 4]%Z /\
  P demo 1 3 1 = (0, [Warning 3 1]) /\
  P22 demo 1 3 1 = (0, [Warning 3 1]) /\
  P13 demo 1 3 1 = (0, [Warning 3 1]) /\
  is_nan 0 = false.
Proof.
  assert (H : ~ In (int_mul 3 1) [1; 2; 4]%Z).
  { vm_compute. intros [H|[H|[H|[]]]]; discriminate H. }
  split; [exact H|]. exact (invalid_product_warns demo 1 3 1 H).
Defined.

Lemma P22_nonpositive_k_witness :
  (-1 <=? 0) = true /\ In 1%Z [1; 2]%Z /\ In 2%Z [1; 2]%Z /\
  P22 demo (-1) 1 2 = (0, []) /\
  forall f PL eps qmax,
    ComputeP22Integral (env := demo_env) f PL (-1) eps qmax = (0, []).
Proof.
  assert (H1 : In 1%Z [1; 2]%Z) by (left; reflexivity).
  assert (H2 : In 2%Z [1; 2]%Z) by (right; left; reflexivity).
  split; [reflexivity|]. split; [exact H1|]. split; [exact H2|].
  exact (P22_nonpositive_k demo (-1) 1 2 eq_refl H1 H2).
Defined.

Lemma F2_G2_swap_witness :
  3 * 3 - fmax 1 QMIN * fmax 1 QMIN - fmax 2 QMIN * fmax 2 QMIN
  = 3 * 3 - fmax 2 QMIN * fmax 2 QMIN - fmax 1 QMIN * fmax 1 QMIN /\
  F2 3 1 2 = F2 3 2 1 /\ G2 3 1 2 = G2 3 2 1.
Proof.
  split; [reflexivity|]. exact (F2_G2_swap 3 1 2 eq_refl).
Defined.

Lemma product_keyed_dispatch_witness :
  int_mul (-1) (-2) = int_mul 1 2 /\
  value (P demo 1 (-1) (-2)) = value (P demo 1 1 2) /\
  value (P22 demo 1 (-1) (-2)) = value (P22 demo 1 1 2) /\
  value (P13 demo 1 (-1) (-2)) = value (P13 demo 1 1 2).
Proof.
  split; [reflexivity|].
  exact (proj1 (product_keyed_dispatch demo 1) (-1)%Z (-2)%Z 1%Z 2%Z eq_refl).
Defined.

Lemma G_unguarded_witness :
  (P_L demo_zero 1 =? 0) = true /\
  not_finite (value (G demo_zero 1)) = true.
Proof.
  split; [reflexivity|].
  exact (proj1 (proj2 (proj2 (G_unguarded demo_zero 1))) eq_refl).
Defined.

(** ** Where the code departs from the specification *)

(** C4 as stated fails on (4,1): 4 is outside {1,2}, yet P, P22 and P13
    emit no warning and return the velocity-velocity results, which are not
    0 here. *)
Lemma invalid_index_dispatched_counterexample :
  ~ In 4%Z [1; 2]%Z /\
  warnings (trace (P demo 1 4 1)) = [] /\
  warnings (trace (P22 demo 1 4 1)) = [] /\
  warnings (trace (P13 demo 1 4 1)) = [] /\
  value (P demo 1 4 1) = -3038.6355085360669 /\
  P demo 1 4 1 = P demo 1 2 2 /\
  P demo 1 4 1 <> (0, [Warning 4 1]) /\
  P22 demo 1 4 1 <> (0, [Warning 4 1]) /\
  P13 demo 1 4 1 <> (0, [Warning 4 1]).
Proof.
  split; [intros [H|[H|[]]]; discriminate H|].
  repeat split; vm_compute; discriminate.
Qed.

(** C5 as stated fails at k = -1 and at k = 0: P13_dd calls the quadrature
    engine and returns what it computes, a number at k = -1 and, with a NaN
    for the absolute tolerance, a NaN at k = 0; it raises nothing. *)
Lemma P13_dd_nonpositive_counterexample :
  (-1 <=? 0) = true /\
  P13_dd demo (-1)
  = (-3.111241932587561e+30,
     [Quadrature1 (@log demo_env QMIN) (@log demo_env QMAX) 1e-3
                  9.9485612362980742]) /\
  outcome_of (P13_dd demo (-1)) <> Raised InvalidArgument /\
  outcome_of (P13_dd demo (-1)) <> Raised DomainError /\
  (0 <=? 0) = true /\
  trace (P13_dd demo 0)
  = [Quadrature1 (@log demo_env QMIN) (@log demo_env QMAX) 1e-3 nan] /\
  is_nan (value (P13_dd demo 0)) = true /\
  outcome_of (P13_dd demo 0) <> Raised InvalidArgument /\
  outcome_of (P13_dd demo 0) <> Raised DomainError.
Proof.
  repeat split; discriminate.
Qed.

(** C6 as stated fails where P_L(k) = 0: G divides by it and returns a NaN;
    it raises nothing. *)
Lemma G_zero_spectrum_counterexample :
  (P_L demo_zero 1 =? 0) = true /\
  is_nan (value (G demo_zero 1)) = true /\
  outcome_of (G demo_zero 1) <> Raised DomainError.
Proof.
  repeat split; discriminate.
Qed.

(** C9 as stated fails at k = 1e4, q = 1e-4, r = 1e4, all within
    (QMIN, QMAX).  There k² = r² = 1e8 and q² = 1e-8 is less than the spacing
    2^-26 of the doubles below 1e8: k²−q² rounds to 1e8 − 2^-26, so
    (k²−q²)−r² is −2^-26, while (k²−r²)−q² is −q².  The two calls differ in
    the first digit. *)
Lemma F2_swap_counterexample :
  (QMIN <? 1e-4) = true /\ (1e4 <? QMAX) = true /\
  1e4 * 1e4 - 1e-4 * 1e-4 - 1e4 * 1e4 = - 0x1p-26 /\
  1e4 * 1e4 - 1e4 * 1e4 - 1e-4 * 1e-4 = - (1e-4 * 1e-4) /\
  F2 1e4 1e-4 1e4 = 0.34175668443952284 /\
  F2 1e4 1e4 1e-4 = 0.46428571428571425 /\
  (F2 1e4 1e-4 1e4 =? F2 1e4 1e4 1e-4) = false /\
  (G2 1e4 1e-4 1e4 =? G2 1e4 1e4 1e-4) = false.
Proof.
  repeat split.
Qed.

(** * Further properties of the code *)

(** ** More facts of binary64 arithmetic: NaN, signs and order *)

Lemma SFcompare_refl (x : spec_float) :
  x <> S754_nan -> SFcompare x x = Some Eq.
Proof.
  destruct x as [s|[|]| |[|] m e]; intros H; try reflexivity; try congruence;
    cbn; rewrite Z.compare_refl, Pos.compare_cont_refl; reflexivity.
Qed.

Lemma is_nan_spec (x : real) : is_nan x = true <-> Prim2SF x = S754_nan.
Proof.
  unfold is_nan. rewrite eqb_spec. unfold SFeqb. split.
  - intros H. destruct (Prim2SF x) eqn:E; try reflexivity;
      rewrite SFcompare_refl in H by discriminate; discriminate.
  - intros ->. reflexivity.
Qed.

(** There is one NaN. *)
Lemma is_nan_eq (x : real) : is_nan x = true -> x = nan.
Proof. intros H. apply Prim2SF_inj. now apply is_nan_spec. Qed.

Lemma nan_mul_l (x : real) : nan * x = nan.
Proof. apply Prim2SF_inj. rewrite mul_spec. reflexivity. Qed.

Lemma nan_mul_r (x : real) : x * nan = nan.
Proof.
  apply Prim2SF_inj. rewrite mul_spec.
  change (Prim2SF nan) with S754_nan. now destruct (Prim2SF x).
Qed.

Lemma nan_div_l (x : real) : nan / x = nan.
Proof. apply Prim2SF_inj. rewrite div_spec. reflexivity. Qed.

Lemma nan_div_r (x : real) : x / nan = nan.
Proof.
  apply Prim2SF_inj. rewrite div_spec.
  change (Prim2SF nan) with S754_nan. now destruct (Prim2SF x).
Qed.

Lemma nan_add_l (x : real) : nan + x = nan.
Proof. apply Prim2SF_inj. rewrite add_spec. reflexivity. Qed.

Lemma nan_add_r (x : real) : x + nan = nan.
Proof.
  apply Prim2SF_inj. rewrite add_spec.
  change (Prim2SF nan) with S754_nan. now destruct (Prim2SF x).
Qed.

Lemma nan_sub_l (x : real) : nan - x = nan.
Proof. apply Prim2SF_inj. rewrite sub_spec. reflexivity. Qed.

Lemma nan_sub_r (x : real) : x - nan = nan.
Proof.
  apply Prim2SF_inj. rewrite sub_spec.
  change (Prim2SF nan) with S754_nan. now destruct (Prim2SF x).
Qed.

Lemma nan_leb_l (x : real) : (nan <=? x) = false.
Proof. rewrite leb_spec. reflexivity. Qed.

Lemma nan_ltb_l (x : real) : (nan <? x) = false.
Proof. rewrite ltb_spec. reflexivity. Qed.

Ltac nan_simpl :=
  repeat (rewrite ?nan_mul_l, ?nan_mul_r, ?nan_div_l, ?nan_div_r,
                  ?nan_add_l, ?nan_add_r, ?nan_sub_l, ?nan_sub_r).

Lemma SFopp_involutive (x : spec_float) : SFopp (SFopp x) = x.
Proof. destruct x; cbn; rewrite ?negb_involutive; reflexivity. Qed.

Lemma float_opp_involutive (x : real) : - - x = x.
Proof. apply Prim2SF_inj. rewrite !opp_spec. apply SFopp_involutive. Qed.

Lemma float_mul_opp_opp (x y : real) : (- x) * (- y) = x * y.
Proof.
  rewrite float_mul_opp_l, (float_mul_comm x (- y)), float_mul_opp_l,
    float_opp_involutive. apply float_mul_comm.
Qed.

Lemma SFcompare_antisym (x y : spec_float) :
  SFcompare y x = option_map CompOpp (SFcompare x y).
Proof.
  assert (Hpos : forall p q, Pos.compare_cont Eq q p
                             = CompOpp (Pos.compare_cont Eq p q))
    by (intros; now rewrite Pos.compare_cont_antisym).
  destruct x as [sx|[|]| |[|] mx ex], y as [sy|[|]| |[|] my ey];
    try reflexivity; cbn;
    rewrite (Z.compare_antisym ex ey); destruct (ex ?= ey)%Z; cbn;
    try reflexivity;
    rewrite (Hpos mx my), ?CompOpp_involutive; reflexivity.
Qed.

Lemma eqb_zero_spec (x : real) :
  (x =? 0) = true -> exists s, Prim2SF x = S754_zero s.
Proof.
  rewrite eqb_spec. change (Prim2SF 0) with (S754_zero false).
  destruct (Prim2SF x) as [s|[|]| |[|] m e]; try discriminate. now exists s.
Qed.

Lemma SFmul_zero_or_nan_l (x y : spec_float) :
  zero_or_nan x = true -> zero_or_nan (SF64mul x y) = true.
Proof.
  destruct x as [sx|sx| |sx mx ex]; try discriminate; intros _;
    destruct y; reflexivity.
Qed.

Lemma SFmul_zero_or_nan_r (x y : spec_float) :
  zero_or_nan y = true -> zero_or_nan (SF64mul x y) = true.
Proof. rewrite SFmul_comm. apply SFmul_zero_or_nan_l. Qed.

Lemma SFdiv_zero_or_nan (x y : spec_float) :
  zero_or_nan x = true -> zero_or_nan y = true -> SF64div x y = S754_nan.
Proof.
  destruct x as [sx|sx| |sx mx ex]; try discriminate; intros _;
    destruct y; try discriminate; reflexivity.
Qed.

Lemma zero_or_nan_value (x : real) :
  zero_or_nan (Prim2SF x) = true -> ((x =? 0) || is_nan x) = true.
Proof.
  unfold is_nan. rewrite !eqb_spec. change (Prim2SF 0) with (S754_zero false).
  destruct (Prim2SF x) as [s|[|]| |[|] m e]; try discriminate; reflexivity.
Qed.

Lemma mul_zero_or_nan_value (V I : real) :
  zero_or_nan (Prim2SF V) = true -> ((V * I =? 0) || is_nan (V * I)) = true.
Proof.
  intros H. apply zero_or_nan_value. rewrite mul_spec.
  now apply SFmul_zero_or_nan_l.
Qed.

Lemma div_pos_zero (q : real) : (0 <? q) = true -> q / 0 = infinity.
Proof.
  rewrite ltb_spec. intros H. apply Prim2SF_inj. rewrite div_spec.
  change (Prim2SF 0) with (S754_zero false) in *.
  change (Prim2SF infinity) with (S754_infinity false).
  destruct (Prim2SF q) as [s|[|]| |[|] m e]; try discriminate; reflexivity.
Qed.

Lemma div_pos_negzero (q : real) :
  (0 <? q) = true -> q / (-0) = neg_infinity.
Proof.
  rewrite ltb_spec. intros H. apply Prim2SF_inj. rewrite div_spec.
  change (Prim2SF 0) with (S754_zero false) in *.
  change (Prim2SF (-0)) with (S754_zero true).
  change (Prim2SF neg_infinity) with (S754_infinity true).
  destruct (Prim2SF q) as [s|[|]| |[|] m e]; try discriminate; reflexivity.
Qed.

(** ** The clamp of the kernels *)

(** [fmax] against QMIN is the clamp: q when QMIN <= q, QMIN otherwise, a
    NaN q included. *)
Lemma fmax_QMIN_clamp (q : real) : fmax q QMIN = clamp q.
Proof.
  unfold fmax, clamp. destruct (is_nan q) eqn:Hn.
  - apply is_nan_eq in Hn. subst q. reflexivity.
  - change (is_nan QMIN) with false. cbv iota.
    rewrite leb_spec, ltb_spec. unfold SFleb, SFltb.
    rewrite (SFcompare_antisym (Prim2SF q)).
    assert (Nq : Prim2SF q <> S754_nan)
      by (intros E; apply is_nan_spec in E; congruence).
    destruct (SFcompare (Prim2SF q) (Prim2SF QMIN)) as [[ | | ]|] eqn:E;
      try reflexivity.
    exfalso. rewrite Prim2SF_QMIN in E.
    destruct (Prim2SF q) as [?|[|]| |[|] m e]; try discriminate; congruence.
Qed.

Lemma clamp_ge (q : real) : (QMIN <=? clamp q) = true.
Proof. unfold clamp. destruct (QMIN <=? q) eqn:E; [exact E|reflexivity]. Qed.

Lemma clamp_idem (q : real) : clamp (clamp q) = clamp q.
Proof. unfold clamp at 1. now rewrite clamp_ge. Qed.

(** X1. F2 and G2 see q and r only through their clamps: a momentum that
    is not at least QMIN (smaller, zero, negative or NaN) acts exactly as
    QMIN, so a NaN in q or r never reaches the result, and the clamped
    momenta are at least QMIN. *)
Theorem kernels_clamp (k q r : real) :
  F2 k q r = F2 k (clamp q) (clamp r) /\
  G2 k q r = G2 k (clamp q) (clamp r) /\
  (QMIN <=? clamp q) = true /\ (QMIN <=? clamp r) = true /\
  F2 k nan r = F2 k QMIN r /\ G2 k nan r = G2 k QMIN r /\
  F2 k q nan = F2 k q QMIN /\ G2 k q nan = G2 k q QMIN.
Proof.
  unfold F2, G2. rewrite !fmax_QMIN_clamp, !clamp_idem.
  repeat split; apply clamp_ge.
Qed.

(** X2. F2 and G2 depend on k through k·k only: they are even in k, to the
    last bit, and a NaN k makes them NaN (unlike a NaN q or r). *)
Theorem kernels_even_in_k (k q r : real) :
  F2 (- k) q r = F2 k q r /\ G2 (- k) q r = G2 k q r /\
  F2 nan q r = nan /\ G2 nan q r = nan.
Proof.
  unfold F2, G2. rewrite float_mul_opp_opp. unfold pow2. nan_simpl.
  repeat split.
Qed.

(** ** The field indices *)

Lemma key_cases (key : Z) :
  In key [1; 2; 4]%Z -> key = 1%Z \/ key = 2%Z \/ key = 4%Z.
Proof. cbn. intuition congruence. Qed.

Lemma key_dec (key : Z) : {In key [1; 2; 4]%Z} + {~ In key [1; 2; 4]%Z}.
Proof. apply in_dec, Z.eq_dec. Qed.

Lemma int_mul_exact (a b : Z) :
  (- 2 ^ 31 <= a * b < 2 ^ 31)%Z -> int_mul a b = (a * b)%Z.
Proof.
  intros H. unfold int_mul, wrap_int.
  rewrite Z.mod_small by lia. lia.
Qed.

Lemma product_124 (a b : Z) :
  In (a * b)%Z [1; 2; 4]%Z <-> In (a, b) silent_pairs.
Proof.
  split.
  - intros H. apply key_cases in H.
    assert (Hp : (1 <= a * b <= 4)%Z) by lia.
    assert (Ha : (-4 <= a <= 4)%Z)
      by (destruct (Z.le_gt_cases b 0), (Z.le_gt_cases 0 b); nia).
    assert (Hb : (-4 <= b <= 4)%Z)
      by (destruct (Z.le_gt_cases a 0), (Z.le_gt_cases 0 a); nia).
    clear Hp.
    assert (Ea : (a = -4 \/ a = -3 \/ a = -2 \/ a = -1 \/ a = 0 \/ a = 1
                  \/ a = 2 \/ a = 3 \/ a = 4)%Z) by lia.
    assert (Eb : (b = -4 \/ b = -3 \/ b = -2 \/ b = -1 \/ b = 0 \/ b = 1
                  \/ b = 2 \/ b = 3 \/ b = 4)%Z) by lia.
    clear Ha Hb.
    repeat (destruct Ea as [Ea|Ea]); repeat (destruct Eb as [Eb|Eb]);
      subst a b; cbn in H |- *; try lia; tauto.
  - unfold silent_pairs. cbn [In].
    intros H. repeat (destruct H as [H|H]); try contradiction;
      inversion H; subst; cbn; tauto.
Qed.

Lemma warnings_app (l l' : list event) :
  warnings (l ++ l') = warnings l ++ warnings l'.
Proof. apply filter_app. Qed.

Section MoreDispatch.

Context {env : Collaborators}.
Variable self : SPT.

Lemma P13_no_warning (k : real) :
  warnings (trace (P13_dd self k)) = [] /\
  warnings (trace (P13_dt self k)) = [] /\
  warnings (trace (P13_tt self k)) = [].
Proof. repeat split. Qed.

Lemma P22_no_warning (k : real) :
  warnings (trace (P22_dd self k)) = [] /\
  warnings (trace (P22_dt self k)) = [] /\
  warnings (trace (P22_tt self k)) = [].
Proof.
  unfold P22_dd, P22_dt, P22_tt, ComputeP22Integral.
  destruct (k <=? 0); repeat split.
Qed.

Lemma P_trace_valid (k : real) (a b : Z) :
  In (int_mul a b) [1; 2; 4]%Z ->
  trace (P self k a b) = trace (P13 self k a b) ++ trace (P22 self k a b).
Proof.
  intros H. apply key_cases in H. unfold P, P13, P22.
  destruct H as [-> | [-> | ->]]; apply trace_bind2.
Qed.

Lemma silent_on_valid_key (k : real) (a b : Z) :
  In (int_mul a b) [1; 2; 4]%Z ->
  warnings (trace (P self k a b)) = [] /\
  warnings (trace (P22 self k a b)) = [] /\
  warnings (trace (P13 self k a b)) = [].
Proof.
  intros H. rewrite (P_trace_valid k a b H), warnings_app.
  apply key_cases in H. unfold P13, P22.
  pose proof (P13_no_warning k) as (A1 & A2 & A3).
  pose proof (P22_no_warning k) as (B1 & B2 & B3).
  destruct H as [-> | [-> | ->]]; rewrite ?A1, ?A2, ?A3, ?B1, ?B2, ?B3;
    repeat split.
Qed.

Lemma warns_on_invalid_key (k : real) (a b : Z) :
  ~ In (int_mul a b) [1; 2; 4]%Z ->
  warnings (trace (P self k a b)) = [Warning a b] /\
  warnings (trace (P22 self k a b)) = [Warning a b] /\
  warnings (trace (P13 self k a b)) = [Warning a b].
Proof.
  intros H. unfold P, P22, P13.
  rewrite !(switch_default _ _ _ _ _ H). repeat split.
Qed.

(** X3. For every k and every pair of ints (a,b), each of P, P22 and P13
    emits a warning exactly when the product a·b is none of 1, 2 and 4, and
    never more than one. *)
Theorem warning_iff_invalid_product (k : real) (a b : Z) :
  (warnings (trace (P self k a b)) = [] <-> In (int_mul a b) [1; 2; 4]%Z) /\
  (warnings (trace (P22 self k a b)) = [] <-> In (int_mul a b) [1; 2; 4]%Z) /\
  (warnings (trace (P13 self k a b)) = [] <-> In (int_mul a b) [1; 2; 4]%Z) /\
  (length (warnings (trace (P self k a b))) <= 1)%nat /\
  (length (warnings (trace (P22 self k a b))) <= 1)%nat /\
  (length (warnings (trace (P13 self k a b))) <= 1)%nat.
Proof.
  destruct (key_dec (int_mul a b)) as [H|H].
  - destruct (silent_on_valid_key k a b H) as (A & B & C').
    rewrite A, B, C'. cbn [length]. repeat split; auto.
  - destruct (warns_on_invalid_key k a b H) as (A & B & C').
    rewrite A, B, C'. cbn [length].
    repeat split; auto; try discriminate; intros; contradiction.
Qed.

(** X4. Where the product a·b does not overflow, the pairs on which P, P22
    and P13 stay silent are exactly twelve: the four field pairs (1,1),
    (1,2), (2,1), (2,2) and (-1,-1), (-1,-2), (-2,-1), (-2,-2), (1,4),
    (4,1), (-1,-4), (-4,-1). *)
Theorem silently_accepted_pairs (k : real) (a b : Z) :
  (- 2 ^ 31 <= a * b < 2 ^ 31)%Z ->
  (warnings (trace (P self k a b)) = [] <-> In (a, b) silent_pairs) /\
  (warnings (trace (P22 self k a b)) = [] <-> In (a, b) silent_pairs) /\
  (warnings (trace (P13 self k a b)) = [] <-> In (a, b) silent_pairs).
Proof.
  intros Hr. rewrite <- product_124, <- (int_mul_exact a b Hr).
  destruct (key_dec (int_mul a b)) as [H|H].
  - destruct (silent_on_valid_key k a b H) as (A & B & C').
    rewrite A, B, C'. repeat split; auto.
  - destruct (warns_on_invalid_key k a b H) as (A & B & C').
    rewrite A, B, C'.
    repeat split; auto; try discriminate; intros; contradiction.
Qed.

(** ** The log and the edge cases of the drivers *)


Lemma P22_drivers_nonpositive (k : real) :
  (k <=? 0) = true ->
  P22_dd self k = (0, []) /\ P22_dt self k = (0, []) /\ P22_tt self k = (0, []).
Proof.
  intros Hk. unfold P22_dd, P22_dt, P22_tt, ComputeP22Integral.
  rewrite Hk. repeat split.
Qed.

(** X6. For k <= 0 and a product 1, 2 or 4, P(k,a,b) is not cut short: it
    is P_L(k) + P13(k,a,b) + 0, and its log is the log of P13(k,a,b), the
    quadrature of the P13 term being run on the non-positive k. *)
Theorem P_nonpositive_k (k : real) (a b : Z) :
  (k <=? 0) = true -> In (int_mul a b) [1; 2; 4]%Z ->
  value (P self k a b) = P_L self k + value (P13 self k a b) + 0 /\
  trace (P self k a b) = trace (P13 self k a b).
Proof.
  intros Hk H. apply key_cases in H.
  destruct (P22_drivers_nonpositive k Hk) as (A1 & A2 & A3).
  unfold P, P13.
  destruct H as [-> | [-> | ->]];
    rewrite (value_bind2 _ _ (fun x y => P_L self k + x + y)), trace_bind2,
      ?A1, ?A2, ?A3; cbn [value trace fst snd];
    rewrite app_nil_r; split; reflexivity.
Qed.

Lemma P13_nan_k :
  value (P13_dd self nan) = nan /\
  value (P13_dt self nan) = nan /\
  value (P13_tt self nan) = nan.
Proof.
  unfold P13_dd, P13_dt, P13_tt, call_Integrate1, bind, emit, ret, value.
  cbn [fst]. nan_simpl. repeat split.
Qed.

Lemma ComputeP22Integral_nan_k f PL eps qmax :
  value (ComputeP22Integral f PL nan eps qmax) = nan /\
  length (trace (ComputeP22Integral f PL nan eps qmax)) = 1%nat.
Proof.
  unfold ComputeP22Integral. rewrite nan_leb_l.
  unfold call_Integrate2, bind, emit, ret, value, trace.
  cbn [fst snd]. nan_simpl. split; reflexivity.
Qed.

(** X7. A NaN wavenumber passes the guard k <= 0 of the P22 driver: on a
    product 1, 2 or 4 the two-dimensional engine is called, and P, P22 and
    P13 all return NaN, whatever the spectrum and the engine return. *)
Theorem nan_wavenumber_propagates (k : real) (a b : Z) :
  is_nan k = true -> In (int_mul a b) [1; 2; 4]%Z ->
  is_nan (value (P self k a b)) = true /\
  is_nan (value (P22 self k a b)) = true /\
  is_nan (value (P13 self k a b)) = true /\
  length (trace (P22 self k a b)) = 1%nat.
Proof.
  intros Hk H. apply is_nan_eq in Hk. subst k. apply key_cases in H.
  destruct P13_nan_k as (A1 & A2 & A3).
  unfold P, P22, P13.
  destruct H as [-> | [-> | ->]];
    rewrite (value_bind2 _ _ (fun x y => P_L self nan + x + y));
    unfold P22_dd, P22_dt, P22_tt;
    rewrite ?A1, ?A2, ?A3;
    rewrite !(proj1 (ComputeP22Integral_nan_k _ _ _ _));
    rewrite !(proj2 (ComputeP22Integral_nan_k _ _ _ _));
    nan_simpl; repeat split.
Qed.

Lemma P13_prefactor_zero (c : real) (k : real) :
  (P_L self k =? 0) = true ->
  zero_or_nan (Prim2SF (k * k / c * P_L self k)) = true /\
  epsrel self * P_L self k / (k * k / c * P_L self k) = nan.
Proof.
  intros Hz. apply eqb_zero_spec in Hz. destruct Hz as [s Hs].
  assert (HV : zero_or_nan (Prim2SF (k * k / c * P_L self k)) = true).
  { rewrite mul_spec. apply SFmul_zero_or_nan_r. now rewrite Hs. }
  split; [exact HV|].
  apply Prim2SF_inj. rewrite div_spec.
  change (Prim2SF nan) with S754_nan.
  apply SFdiv_zero_or_nan; [|exact HV].
  rewrite mul_spec. apply SFmul_zero_or_nan_r. now rewrite Hs.
Qed.

(** X8. Where P_L(k) is zero, each P13 driver hands the quadrature engine
    a NaN for the absolute tolerance (epsrel·P_L(k)/V is 0/0 or worse), and
    what it returns is a zero or a NaN, whatever k and the engine's result
    are. *)
Theorem P13_zero_spectrum (k : real) :
  (P_L self k =? 0) = true ->
  (trace (P13_dd self k)
   = [Quadrature1 (log QMIN) (log QMAX) (epsrel self) nan]
   /\ ((value (P13_dd self k) =? 0) || is_nan (value (P13_dd self k)))
      = true) /\
  (trace (P13_dt self k)
   = [Quadrature1 (log QMIN) (log QMAX) (epsrel self) nan]
   /\ ((value (P13_dt self k) =? 0) || is_nan (value (P13_dt self k)))
      = true) /\
  (trace (P13_tt self k)
   = [Quadrature1 (log QMIN) (log QMAX) (epsrel self) nan]
   /\ ((value (P13_tt self k) =? 0) || is_nan (value (P13_tt self k)))
      = true).
Proof.
  intros Hz.
  destruct (P13_prefactor_zero (252 * 4 * M_PI * M_PI) k Hz) as [V1 E1].
  destruct (P13_prefactor_zero (84 * 4 * M_PI * M_PI) k Hz) as [V2 E2].
  unfold P13_dd, P13_dt, P13_tt, call_Integrate1, bind, emit, ret, value, trace.
  cbn [fst snd app]. rewrite E1, E2.
  repeat split; now apply mul_zero_or_nan_value.
Qed.

(** X9. Where P_L(k) is zero, G(k) is NaN, never an infinity and never a
    number: P13_dd(k) is then a zero or a NaN, and the quotient by the zero
    spectrum is NaN. *)
Theorem G_zero_spectrum_nan (k : real) :
  (P_L self k =? 0) = true -> value (G self k) = nan.
Proof.
  intros Hz.
  destruct (P13_prefactor_zero (252 * 4 * M_PI * M_PI) k Hz) as [V1 _].
  apply eqb_zero_spec in Hz. destruct Hz as [s Hs].
  unfold G, P13_dd, call_Integrate1, bind, emit, ret, value. cbn [fst].
  apply Prim2SF_inj. rewrite add_spec, div_spec.
  rewrite SFdiv_zero_or_nan.
  - change (Prim2SF nan) with S754_nan. now destruct (Prim2SF 1).
  - rewrite mul_spec. apply SFmul_zero_or_nan_r.
    rewrite mul_spec. now apply SFmul_zero_or_nan_l.
  - now rewrite Hs.
Qed.

End MoreDispatch.

(** ** The P13 integrands at the singular ratios *)

Section MoreIntegrands.

Context {env : Collaborators}.

(** X10. At k = 0 the sign of the zero decides.  For q = exp(logq) > 0 and
    k = +0 the ratio r = q/k is +Inf, the expansion in inverse powers is
    taken and the bracket is its constant term: the integrand is
    q·P_L(q)·(-488/5) for dd, q·P_L(q)·(-200) for dt and q·P_L(q)·(-504/5)
    for tt.  For k = -0 the ratio is -Inf, the polynomial in r² is taken
    and the integrand is NaN. *)
Theorem f13_at_zero_k (PL : PowerSpectrum) (logq : real) :
  (0 <? exp logq) = true ->
  f13_dd PL 0 logq = exp logq * PL (exp logq) * (-488 / 5) /\
  f13_dt PL 0 logq = exp logq * PL (exp logq) * (-200) /\
  f13_tt PL 0 logq = exp logq * PL (exp logq) * (-504 / 5) /\
  f13_dd PL (-0) logq = nan /\
  f13_dt PL (-0) logq = nan /\
  f13_tt PL (-0) logq = nan.
Proof.
  intros Hq. unfold f13_dd, f13_dt, f13_tt. cbv zeta.
  rewrite (div_pos_zero _ Hq), (div_pos_negzero _ Hq).
  repeat split; apply nan_mul_r.
Qed.

(** X11. Where q = exp(logq) and k give the ratio r = q/k = 1 exactly, the
    integrand takes the value of the removable singularity, not 0/0:
    q·P_L(q)·(-88) for dd, q·P_L(q)·(-152) for dt and q·P_L(q)·(-72) for
    tt. *)
Theorem f13_at_r_one (PL : PowerSpectrum) (k logq : real) :
  exp logq / k = 1 ->
  f13_dd PL k logq = exp logq * PL (exp logq) * (-88) /\
  f13_dt PL k logq = exp logq * PL (exp logq) * (-152) /\
  f13_tt PL k logq = exp logq * PL (exp logq) * (-72).
Proof.
  intros Hr. unfold f13_dd, f13_dt, f13_tt. cbv zeta.
  rewrite Hr. repeat split.
Qed.

(** X12. A NaN ratio r = q/k (a NaN k, or 0/0, or Inf/Inf) fails the three
    threshold tests, reaches the closed form and makes the integrand NaN,
    for any spectrum and any [log]: no branch hides it. *)
Theorem f13_nan_ratio (PL : PowerSpectrum) (k logq : real) :
  is_nan (exp logq / k) = true ->
  f13_dd PL k logq = nan /\ f13_dt PL k logq = nan /\ f13_tt PL k logq = nan.
Proof.
  intros Hr. apply is_nan_eq in Hr.
  unfold f13_dd, f13_dt, f13_tt. cbv zeta. rewrite Hr.
  rewrite !nan_ltb_l.
  change (fabs (nan - 1) <? 1e-10) with false.
  change (100 <? nan) with false. cbv iota.
  unfold pow2, pow3, pow4. nan_simpl. repeat split.
Qed.

End MoreIntegrands.

(** ** The further properties at concrete inputs *)

Lemma silently_accepted_pairs_witness :
  (- 2 ^ 31 <= -1 * -4 < 2 ^ 31)%Z /\
  (warnings (trace (P demo 1 (-1) (-4))) = []
   <-> In (-1, -4)%Z silent_pairs) /\
  (warnings (trace (P22 demo 1 (-1) (-4))) = []
   <-> In (-1, -4)%Z silent_pairs) /\
  (warnings (trace (P13 demo 1 (-1) (-4))) = []
   <-> In (-1, -4)%Z silent_pairs).
Proof.
  assert (H : (- 2 ^ 31 <= -1 * -4 < 2 ^ 31)%Z) by lia.
  split; [exact H|].
  exact (silently_accepted_pairs demo 1 (-1)%Z (-4)%Z H).
Defined.


Lemma P_nonpositive_k_witness :
  (-1 <=? 0) = true /\ In (int_mul 1 1) [1; 2; 4]%Z /\
  value (P demo (-1) 1 1) = P_L demo (-1) + value (P13 demo (-1) 1 1) + 0 /\
  trace (P demo (-1) 1 1) = trace (P13 demo (-1) 1 1).
Proof.
  assert (H : In (int_mul 1 1) [1; 2; 4]%Z) by (left; reflexivity).
  split; [reflexivity|]. split; [exact H|].
  exact (P_nonpositive_k demo (-1) 1%Z 1%Z eq_refl H).
Defined.

Lemma nan_wavenumber_propagates_witness :
  is_nan nan = true /\ In (int_mul 1 2) [1; 2; 4]%Z /\
  is_nan (value (P demo nan 1 2)) = true /\
  is_nan (value (P22 demo nan 1 2)) = true /\
  is_nan (value (P13 demo nan 1 2)) = true /\
  length (trace (P22 demo nan 1 2)) = 1%nat.
Proof.
  assert (H : In (int_mul 1 2) [1; 2; 4]%Z) by (right; left; reflexivity).
  split; [reflexivity|]. split; [exact H|].
  exact (nan_wavenumber_propagates demo nan 1%Z 2%Z eq_refl H).
Defined.

Lemma P13_zero_spectrum_witness :
  (P_L demo_zero 1 =? 0) = true /\
  trace (P13_dd demo_zero 1)
  = [Quadrature1 (@log demo_env QMIN) (@log demo_env QMAX)
                 (epsrel demo_zero) nan] /\
  ((value (P13_dd demo_zero 1) =? 0) || is_nan (value (P13_dd demo_zero 1)))
  = true.
Proof.
  split; [reflexivity|].
  exact (proj1 (P13_zero_spectrum demo_zero 1 eq_refl)).
Defined.

Lemma G_zero_spectrum_nan_witness :
  (P_L demo_zero 1 =? 0) = true /\ value (G demo_zero 1) = nan.
Proof.
  split; [reflexivity|]. exact (G_zero_spectrum_nan demo_zero 1 eq_refl).
Defined.

Lemma f13_at_zero_k_witness :
  (0 <? @exp demo_env 0) = true /\
  @f13_dd demo_env (P_L demo) 0 0
  = @exp demo_env 0 * P_L demo (@exp demo_env 0) * (-488 / 5) /\
  @f13_dd demo_env (P_L demo) (-0) 0 = nan.
Proof.
  split; [reflexivity|].
  pose proof (@f13_at_zero_k demo_env (P_L demo) 0 eq_refl) as H.
  split; [exact (proj1 H)|].
  exact (proj1 (proj2 (proj2 (proj2 H)))).
Defined.

Lemma f13_at_r_one_witness :
  @exp demo_env 1 / 2 = 1 /\
  @f13_dd demo_env (P_L demo) 2 1
  = @exp demo_env 1 * P_L demo (@exp demo_env 1) * (-88).
Proof.
  split; [reflexivity|].
  exact (proj1 (@f13_at_r_one demo_env (P_L demo) 2 1 eq_refl)).
Defined.

Lemma f13_nan_ratio_witness :
  is_nan (@exp demo_env 0 / nan) = true /\
  @f13_dd demo_env (P_L demo) nan 0 = nan.
Proof.
  split; [reflexivity|].
  exact (proj1 (@f13_nan_ratio demo_env (P_L demo) nan 0 eq_refl)).
Defined.
